(** * STX crash diagnostics: backtrace capture, signal routing, source locations

    A shallow embedding of [src/backtrace.cc] and of
    [source_location/include/stx/source_location.h], with the properties
    of the specification stated and settled over it.

    Conventions.
    - [int], [size_t] and [uintptr_t] values are integers in [Z]; the two
      conversions the code performs ([size_t] to [int] for the array
      length handed to the stack walkers, [int] to [size_t] for the value
      returned by [trace]) are written out as wrap-arounds.
    - The fixed-size stack arrays are lists of exactly the declared length.
    - Everything outside the repository (the two Abseil stack walkers, the
      Abseil symbolizer, [std::signal], the standard error stream, the
      compiler builtins) is an explicit component of the environment that
      is passed to the code. *)

From Stdlib Require Import ZArith List String Ascii Lia HexString.
From stdpp Require Import base tactics option list gmap strings pretty.
Import ListNotations.
Local Open Scope Z_scope.

(** ** Machine integers *)

Module Int.

(** [static_cast<int>] of an arbitrary integer: 32-bit two's complement. *)
Definition to_int (z : Z) : Z := (z + 2 ^ 31) mod 2 ^ 32 - 2 ^ 31.

(** Conversion to [size_t] (64 bits, unsigned). *)
Definition to_size_t (z : Z) : Z := z mod 2 ^ 64.

End Int.

(** ** Build configuration

    [STX_MAX_STACK_FRAME_DEPTH] and [STX_SYMBOL_BUFFER_SIZE] are
    preprocessor constants supplied by the build; they are array lengths,
    hence natural numbers, and every definition below takes them from
    this record. *)

Record Config := {
  STX_MAX_STACK_FRAME_DEPTH : nat;
  STX_SYMBOL_BUFFER_SIZE : nat
}.

(** ** The environment of a trace

    [ip_walk] is what the program-counter walker finds on the calling
    thread and [sp_walk] what the frame walker finds (frame address and
    frame size), both innermost first and both starting with the frame
    of the function that calls the walker.  The two walks are independent
    and may differ in length.  [symbolizer pc out_size] is the answer of
    the symbolizer for address [pc] when it may write [out_size]
    characters: whether it found a symbol, and the characters it writes. *)

Record World := {
  ip_walk : list Z;
  sp_walk : list (Z * Z);
  symbolizer : Z -> nat -> bool * list ascii
}.

(** Storing the [filled] entries at the front of a fixed-size array. *)
Definition store_prefix {A} (filled arr : list A) : list A :=
  filled ++ drop (length filled) arr.

(** [std::memset(buf, 0, n)]. *)
Definition memset0 (buf : list ascii) (n : nat) : list ascii :=
  replicate (min n (length buf)) zero ++ drop n buf.

Module absl.

(** [absl::GetStackTrace(result, max_depth, skip_count)]: skips the
    [skip_count] most recent frames, stores at most [max_depth] program
    counters and returns them (their number is the returned depth). *)
Definition GetStackTrace (w : World) (max_depth skip_count : Z) : list Z :=
  take (Z.to_nat max_depth) (drop (Z.to_nat skip_count) (ip_walk w)).

(** [absl::GetStackFrames(result, sizes, max_depth, skip_count)]: the
    same walk over frame addresses, with each frame's size. *)
Definition GetStackFrames (w : World) (max_depth skip_count : Z)
  : list (Z * Z) :=
  take (Z.to_nat max_depth) (drop (Z.to_nat skip_count) (sp_walk w)).

(** [absl::Symbolize(pc, out, out_size)]: the answer, and the array [out]
    afterwards; nothing is written past [out_size] characters or past
    the end of the array. *)
Definition Symbolize (w : World) (pc : Z) (out : list ascii) (out_size : nat)
  : bool * list ascii :=
  let '(ok, written) := symbolizer w pc out_size in
  (ok, take (length out) (store_prefix (take out_size written) out)).

End absl.

(** ** Data model of [stx::backtrace] *)

Module backtrace.

Record CharSpan := { data : list ascii; size : nat }.

Record Symbol := { symbol_ : CharSpan }.

Record Frame := {
  ip : option Z;
  sp : option Z;
  symbol : option Symbol
}.

(** [Frame frame{}]: every field absent. *)
Definition empty_frame : Frame := {| ip := None; sp := None; symbol := None |}.

(** Assignments to one field of a frame. *)
Definition set_ip (f : Frame) (v : option Z) : Frame :=
  {| ip := v; sp := sp f; symbol := symbol f |}.
Definition set_sp (f : Frame) (v : option Z) : Frame :=
  {| ip := ip f; sp := v; symbol := symbol f |}.
Definition set_symbol (f : Frame) (v : option Symbol) : Frame :=
  {| ip := ip f; sp := sp f; symbol := v |}.

Inductive SignalError := Unknown | SigErr.

(** [Symbol::raw]: the view of the buffer as a C string, that is, the
    characters before the first NUL.  The code builds the view from the
    bare character pointer and does not look at the span's size: on a
    buffer without a NUL it reads on past the buffer, which has no
    defined result.  [c_str] gives the text of the buffer there; the
    properties below that speak of the text of a symbol take a buffer
    that holds a NUL. *)
Fixpoint c_str (cs : list ascii) : string :=
  match cs with
  | [] => EmptyString
  | c :: rest => if Ascii.eqb c zero then EmptyString else String c (c_str rest)
  end.

Definition raw (s : Symbol) : string := c_str (data (symbol_ s)).

(** The record of one loop iteration, kept to state what a trace does
    to its surroundings: the address and the buffer contents handed to
    the symbolizer, the symbolizer's answer, the frame and the number
    handed to the visitor, and the visitor's answer. *)
Record Iteration := {
  it_pc : Z;
  it_buffer : list ascii;
  it_resolved : bool;
  it_frame : Frame;
  it_displayIndex : Z;
  it_stop : bool
}.

Section Trace.

Context (cfg : Config) (w : World).
(** The visitor, with whatever state it captures. *)
Context {V : Type} (callback : V -> Frame -> Z -> bool * V).

Definition max_len : nat := STX_SYMBOL_BUFFER_SIZE cfg.

(** The loop body for index [i]: the buffer afterwards, the visitor's
    state afterwards, and the record of the iteration. *)
Definition trace_step (ips sps : list Z) (depth i : Z)
    (buf : list ascii) (vs : V) : list ascii * V * Iteration :=
  let buf := memset0 buf max_len in
  let frame := empty_frame in
  let pc := nth (Z.to_nat i) ips 0 in
  let '(ok, buf') := absl.Symbolize w pc buf max_len in
  let frame :=
    if ok
    then set_symbol frame
           (Some {| symbol_ := {| data := buf'; size := max_len |} |})
    else frame in
  let frame := set_ip frame (Some pc) in
  let frame := set_sp frame (Some (nth (Z.to_nat i) sps 0)) in
  let '(stop, vs') := callback vs frame (depth - i) in
  (buf', vs',
   {| it_pc := pc; it_buffer := buf; it_resolved := ok;
      it_frame := frame; it_displayIndex := depth - i; it_stop := stop |}).

(** [for (int i = 0; i < depth; i++) { ...; if (callback(...)) break; }]
    over the indices still to run. *)
Fixpoint trace_loop (ips sps : list Z) (depth : Z) (idxs : list Z)
    (buf : list ascii) (vs : V) : V * list Iteration :=
  match idxs with
  | [] => (vs, [])
  | i :: rest =>
      let '(buf', vs', it) := trace_step ips sps depth i buf vs in
      if it_stop it then (vs', [it])
      else
        let '(vs'', its) := trace_loop ips sps depth rest buf' vs' in
        (vs'', it :: its)
  end.

Record Captured := {
  ips : list Z;
  sps : list Z;
  sizes : list Z;
  ips_depth : Z;
  sps_depth : Z
}.

(** The capture phase: the three zero-initialised arrays and the two
    walks, each told the array length and to skip one frame. *)
Definition capture : Captured :=
  let skip_count := 1 in
  let n := STX_MAX_STACK_FRAME_DEPTH cfg in
  let ips0 := replicate n 0 in
  let sps0 := replicate n 0 in
  let sizes0 := replicate n 0 in
  let got_ips := absl.GetStackTrace w (Int.to_int (Z.of_nat n)) skip_count in
  let got_sps := absl.GetStackFrames w (Int.to_int (Z.of_nat n)) skip_count in
  {| ips := store_prefix got_ips ips0;
     sps := store_prefix (fst <$> got_sps) sps0;
     sizes := store_prefix (snd <$> got_sps) sizes0;
     ips_depth := Z.of_nat (length got_ips);
     sps_depth := Z.of_nat (length got_sps) |}.

(** [int depth = ips_depth > sps_depth ? sps_depth : ips_depth;] *)
Definition effective_depth : Z :=
  let c := capture in
  if ips_depth c >? sps_depth c then sps_depth c else ips_depth c.

(** [backtrace::trace]: the returned [size_t], the visitor's final
    state, and the iterations that ran, in order. *)
Definition trace (vs : V) : Z * V * list Iteration :=
  let c := capture in
  let depth := effective_depth in
  let buf := replicate max_len zero in
  let '(vs', its) :=
    trace_loop (ips c) (sps c) depth (seqZ 0 depth) buf vs in
  (Int.to_size_t depth, vs', its).

End Trace.

(** What the loop body does at index [i] on buffer [buf], read off the
    record [it] of the iteration. *)
Definition step_shape (cfg : Config) (w : World) (ips sps : list Z)
    (depth i : Z) (buf : list ascii) (it : Iteration) : Prop :=
  let answer :=
    absl.Symbolize w (nth (Z.to_nat i) ips 0)
      (memset0 buf (max_len cfg)) (max_len cfg) in
  it_pc it = nth (Z.to_nat i) ips 0
  /\ it_buffer it = memset0 buf (max_len cfg)
  /\ it_resolved it = answer.1
  /\ it_displayIndex it = depth - i
  /\ ip (it_frame it) = Some (nth (Z.to_nat i) ips 0)
  /\ sp (it_frame it) = Some (nth (Z.to_nat i) sps 0)
  /\ symbol (it_frame it) =
       (if answer.1
        then Some {| symbol_ := {| data := answer.2; size := max_len cfg |} |}
        else None).

End backtrace.


(** ** The crash reporter *)

Definition tab : string := String (ascii_of_nat 9) EmptyString.
Definition nl : string := String (ascii_of_nat 10) EmptyString.

(** [fputs(s, stderr)]: the error stream is the text written so far. *)
Definition fputs (s : string) (stderr : string) : string := stderr +:+ s.

(** The conversions [%d] and [PRIxPTR] of [fprintf]. *)
Definition fmt_d (i : Z) : string := pretty i.
Definition fmt_x (p : Z) : string :=
  match Z.to_N p with
  | N0 => "0"
  | Npos q => HexString.Raw.of_pos q EmptyString
  end.

Definition print_none (stderr : string) : string := fputs "<unknown>" stderr.

(** The visitor of [print_backtrace]; its state is the error stream. *)
Definition print_frame (stderr : string) (frame : backtrace.Frame) (i : Z)
  : bool * string :=
  let stderr := fputs ("#" +:+ fmt_d i +:+ tab +:+ tab) stderr in
  let stderr :=
    match backtrace.symbol frame with
    | Some sym => fputs (backtrace.raw sym) stderr
    | None => print_none stderr
    end in
  let stderr := fputs (tab +:+ " (ip: 0x") stderr in
  let stderr :=
    match backtrace.ip frame with
    | Some ip => fputs (fmt_x ip) stderr
    | None => print_none stderr
    end in
  let stderr := fputs ", sp: 0x" stderr in
  let stderr :=
    match backtrace.sp frame with
    | Some sp => fputs (fmt_x sp) stderr
    | None => print_none stderr
    end in
  let stderr := fputs (")" +:+ nl) stderr in
  (false, stderr).

(** The line [print_frame] adds for one frame. *)
Definition frame_line (frame : backtrace.Frame) (i : Z) : string :=
  (print_frame EmptyString frame i).2.

Definition backtrace_preamble : string :=
  nl +:+ nl +:+ "Backtrace:" +:+ nl +:+
  "ip: Instruction Pointer,  sp: Stack Pointer" +:+ nl +:+ nl.

Definition print_backtrace (cfg : Config) (w : World) (stderr : string) : string :=
  let stderr := fputs backtrace_preamble stderr in
  let '(_, stderr, _) := backtrace.trace cfg w print_frame stderr in
  fputs nl stderr.

(** ** Signals *)

(** The values of [<csignal>] on Linux. *)
Definition SIGILL : Z := 4.
Definition SIGFPE : Z := 8.
Definition SIGSEGV : Z := 11.
Definition SIGTERM : Z := 15.

(** How a function hands control back. *)
Inductive Control := Returns | Aborts.

(** The text the handler writes for [signal] (nothing for a signal
    outside the [switch]). *)
Definition signal_diagnostic (signal : Z) : string :=
  if signal =? SIGSEGV then
    "Received 'SIGSEGV' signal. Invalid memory access occurred " +:+
    "(segmentation fault)."
  else if signal =? SIGILL then
    "Received 'SIGILL' signal. Invalid program image (illegal/invalid " +:+
    "instruction, i.e. nullptr dereferencing)."
  else if signal =? SIGFPE then
    "Received 'SIGFPE' signal. Erroneous arithmetic operation (i.e. " +:+
    "divide by zero)."
  else EmptyString.

(** [signal_handler(int signal)], declared noreturn: the error stream
    when the process ends, and how the function ends. *)
Definition signal_handler (cfg : Config) (w : World) (signal : Z)
    (stderr : string) : string * Control :=
  let stderr := fputs (nl +:+ nl) stderr in
  let stderr := fputs (signal_diagnostic signal) stderr in
  let stderr := print_backtrace cfg w stderr in
  (stderr, Aborts).

(** A pointer to a handler function, as a signal's disposition:
    the two standard dispositions, the address of [signal_handler], or
    the address of some other function of the host program. *)
Inductive sighandler :=
| SIG_DFL
| SIG_IGN
| signal_handler_ptr
| other_handler (id : nat).

(** What [std::signal] returns: [SIG_ERR], or the previous disposition. *)
Inductive signal_ret :=
| SIG_ERR
| previous (h : sighandler).

(** The process-wide signal state: the dispositions that were set (a
    signal without an entry has the default one) and the signals for
    which the system refuses a registration. *)
Record OS := {
  dispositions : gmap Z sighandler;
  rejects : Z -> bool
}.

Definition disposition (os : OS) (sig : Z) : sighandler :=
  default SIG_DFL (dispositions os !! sig).

(** A freshly started process. *)
Definition initial_os (rej : Z -> bool) : OS :=
  {| dispositions := ∅; rejects := rej |}.

Module std.

(** [std::signal(sig, handler)]. *)
Definition signal (os : OS) (sig : Z) (handler : sighandler) : signal_ret * OS :=
  if rejects os sig then (SIG_ERR, os)
  else (previous (disposition os sig),
        {| dispositions := <[sig := handler]> (dispositions os);
           rejects := rejects os |}).

End std.

Inductive Result (T E : Type) :=
| Ok (value : T)
| Err (error : E).
Arguments Ok {T E} value.
Arguments Err {T E} error.

(** The supported set: segmentation fault, illegal instruction,
    floating-point exception. *)
Definition supported_signals : list Z := [SIGSEGV; SIGILL; SIGFPE].

(** [backtrace::handle_signal]. *)
Definition handle_signal (os : OS) (signal : Z)
  : Result sighandler backtrace.SignalError * OS :=
  if negb (signal =? SIGSEGV) && negb (signal =? SIGILL)
     && negb (signal =? SIGFPE)
  then (Err backtrace.Unknown, os)
  else
    let '(err, os') := std.signal os signal signal_handler_ptr in
    match err with
    | SIG_ERR => (Err backtrace.SigErr, os')
    | previous h => (Ok h, os')
    end.

(** ** Source locations *)

Module SourceLocation.

(** [STX_HAS_BUILTIN(FILE)] and the like: what the compiler offers. *)
Record Builtins := {
  has_FILE : bool;
  has_FUNCTION : bool;
  has_LINE : bool;
  has_COLUMN : bool
}.

(** What [__builtin_FILE()], [__builtin_FUNCTION()], [__builtin_LINE()]
    and [__builtin_COLUMN()] evaluate to at a call site. *)
Record CallSite := {
  builtin_FILE : string;
  builtin_FUNCTION : string;
  builtin_LINE : Z;
  builtin_COLUMN : Z
}.

Record t := {
  line_ : Z;
  column_ : Z;
  file_ : string;
  func_ : string
}.

(** Conversion to [uint_least32_t]. *)
Definition to_u32 (z : Z) : Z := z mod 2 ^ 32.

(** The default constructor. *)
Definition empty : t :=
  {| line_ := 0; column_ := 0; file_ := EmptyString; func_ := EmptyString |}.

(** The default arguments of [current]. *)
Definition default_file (b : Builtins) (site : CallSite) : string :=
  if has_FILE b then builtin_FILE site else "unknown".
Definition default_func (b : Builtins) (site : CallSite) : string :=
  if has_FUNCTION b then builtin_FUNCTION site else "unknown".
Definition default_line (b : Builtins) (site : CallSite) : Z :=
  if has_LINE b then to_u32 (builtin_LINE site) else 0.
Definition default_column (b : Builtins) (site : CallSite) : Z :=
  if has_COLUMN b then to_u32 (builtin_COLUMN site) else 0.

(** [SourceLocation::current(file, func, line, column)]; an argument
    that is [None] is left to its default. *)
Definition current (b : Builtins) (site : CallSite)
    (file func : option string) (line column : option Z) : t :=
  let file := default (default_file b site) file in
  let func := default (default_func b site) func in
  let line := default (default_line b site) (to_u32 <$> line) in
  let column := default (default_column b site) (to_u32 <$> column) in
  let loc := empty in
  let loc := {| line_ := line; column_ := column_ loc;
                file_ := file_ loc; func_ := func_ loc |} in
  let loc := {| line_ := line_ loc; column_ := column;
                file_ := file_ loc; func_ := func_ loc |} in
  let loc := {| line_ := line_ loc; column_ := column_ loc;
                file_ := file; func_ := func_ loc |} in
  let loc := {| line_ := line_ loc; column_ := column_ loc;
                file_ := file_ loc; func_ := func |} in
  loc.

Definition column (loc : t) : Z := column_ loc.
Definition line (loc : t) : Z := line_ loc.
Definition file_name (loc : t) : string := file_ loc.
Definition function_name (loc : t) : string := func_ loc.

(** A compiler without any of the four builtins. *)
Definition no_builtins : Builtins :=
  {| has_FILE := false; has_FUNCTION := false;
     has_LINE := false; has_COLUMN := false |}.

End SourceLocation.

(** ** Reading the outcome of a trace *)

Definition returned {V} (r : Z * V * list backtrace.Iteration) : Z := r.1.1.
Definition final_state {V} (r : Z * V * list backtrace.Iteration) : V := r.1.2.
Definition iterations {V} (r : Z * V * list backtrace.Iteration)
  : list backtrace.Iteration := r.2.


(** The phrases the specification gives for the three diagnostics. *)
Definition diagnostic_phrases : list (Z * string) :=
  [ (SIGSEGV, "invalid memory access");
    (SIGILL, "invalid program image");
    (SIGFPE, "erroneous arithmetic operation") ].

(** Lower-casing of the letters A to Z, and search for a phrase. *)
Definition lower_ascii (c : ascii) : ascii :=
  let n := nat_of_ascii c in
  if ((65 <=? n) && (n <=? 90))%nat then ascii_of_nat (n + 32) else c.

Fixpoint lower (s : string) : string :=
  match s with
  | EmptyString => EmptyString
  | String c rest => String (lower_ascii c) (lower rest)
  end.

Fixpoint contains (phrase text : string) : bool :=
  String.prefix phrase text ||
  match text with
  | EmptyString => false
  | String _ rest => contains phrase rest
  end.

(** ** Concrete environments *)

Module Demo.

(** A symbolizer that looks addresses up in a table and writes the name,
    cut to fit, with its terminating NUL. *)
Definition table_symbolizer (table : list (Z * string)) (pc : Z) (out_size : nat)
  : bool * list ascii :=
  match list_find (fun e => bool_decide (e.1 = pc)) table with
  | Some (_, (_, name)) =>
      match out_size with
      | O => (false, [])
      | S room => (true, take room (list_ascii_of_string name) ++ [zero])
      end
  | None => (false, [])
  end.

Definition cfg : Config :=
  {| STX_MAX_STACK_FRAME_DEPTH := 4; STX_SYMBOL_BUFFER_SIZE := 8 |}.

(** [main] calls an unnamed helper, which calls [foo], which calls
    [trace]; the helper's address is in no symbol table. *)
Definition world : World :=
  {| ip_walk := [4096; 8192; 12288; 16384];
     sp_walk := [(1000, 16); (1016, 32); (1048, 32); (1080, 64)];
     symbolizer := table_symbolizer
                     [(4096, "trace"); (8192, "foo"); (16384, "main")] |}.

(** Ten frames below [trace], more than [cfg] allows. *)
Definition deep_world : World :=
  {| ip_walk := seqZ 100 11;
     sp_walk := (fun a => (a, 8)) <$> seqZ 500 11;
     symbolizer := table_symbolizer [] |}.

(** The two walks disagree: five program counters, three frames. *)
Definition uneven_world : World :=
  {| ip_walk := [1; 2; 3; 4; 5];
     sp_walk := [(10, 8); (20, 8); (30, 8)];
     symbolizer := table_symbolizer [] |}.

Definition never_stop (_ : unit) (_ : backtrace.Frame) (_ : Z) : bool * unit :=
  (false, tt).

Definition stop_at_once (_ : unit) (_ : backtrace.Frame) (_ : Z) : bool * unit :=
  (true, tt).

Definition accepting_os : OS := initial_os (fun _ => false).

Definition site : SourceLocation.CallSite :=
  {| SourceLocation.builtin_FILE := "main.cc";
     SourceLocation.builtin_FUNCTION := "main";
     SourceLocation.builtin_LINE := 12;
     SourceLocation.builtin_COLUMN := 3 |}.

End Demo.

(** ** Reading a run as a whole *)

(** What an iteration shows apart from the visitor's answer. *)
Definition observed (it : backtrace.Iteration)
  : Z * list ascii * bool * backtrace.Frame * Z :=
  (backtrace.it_pc it, backtrace.it_buffer it, backtrace.it_resolved it,
   backtrace.it_frame it, backtrace.it_displayIndex it).

(** The visitor's state after it has been called, in order, on the
    frames and numbers of the iterations [its], starting from [vs]. *)
Definition replay {V} (callback : V -> backtrace.Frame -> Z -> bool * V)
    (vs : V) (its : list backtrace.Iteration) : V :=
  fold_left
    (fun s it =>
       (callback s (backtrace.it_frame it) (backtrace.it_displayIndex it)).2)
    its vs.

(** The lines of a report, one per iteration. *)
Fixpoint report_lines (its : list backtrace.Iteration) : string :=
  match its with
  | [] => EmptyString
  | it :: rest =>
      frame_line (backtrace.it_frame it) (backtrace.it_displayIndex it)
      +:+ report_lines rest
  end.

(** The symbol column of a report line. *)
Definition symbol_text (frame : backtrace.Frame) : string :=
  match backtrace.symbol frame with
  | Some sym => backtrace.raw sym
  | None => "<unknown>"
  end.

(** * Properties *)

(** ** Integer conversions *)

Module IntFacts.

Lemma to_int_le_of_nonneg z : 0 <= z -> Int.to_int z <= z.
Proof.
  intros Hz. unfold Int.to_int.
  pose proof (Z.mod_le (z + 2 ^ 31) (2 ^ 32)) as Hle.
  lia.
Qed.

Lemma to_int_upper z : Int.to_int z < 2 ^ 31.
Proof.
  unfold Int.to_int.
  pose proof (Z.mod_pos_bound (z + 2 ^ 31) (2 ^ 32)) as Hb.
  lia.
Qed.

Lemma to_size_t_small z : 0 <= z < 2 ^ 64 -> Int.to_size_t z = z.
Proof. intros Hz. unfold Int.to_size_t. now rewrite Z.mod_small. Qed.

End IntFacts.

(** ** Arrays and the buffer *)

Lemma store_prefix_lookup {A} (filled arr : list A) (k : nat) :
  (k < length filled)%nat -> store_prefix filled arr !! k = filled !! k.
Proof. intros Hk. unfold store_prefix. now rewrite lookup_app_l. Qed.

Lemma store_prefix_length {A} (filled arr : list A) :
  (length filled <= length arr)%nat ->
  length (store_prefix filled arr) = length arr.
Proof.
  intros Hle. unfold store_prefix.
  rewrite length_app, length_drop. lia.
Qed.

Lemma memset0_full (buf : list ascii) :
  memset0 buf (length buf) = replicate (length buf) zero.
Proof.
  unfold memset0. rewrite Nat.min_id, drop_all. apply app_nil_r.
Qed.

Lemma memset0_zeros (n : nat) :
  memset0 (replicate n zero) n = replicate n zero.
Proof.
  pose proof (memset0_full (replicate n zero)) as H.
  now rewrite length_replicate in H.
Qed.

Lemma Symbolize_length (w : World) pc out n :
  length (absl.Symbolize w pc out n).2 = length out.
Proof.
  unfold absl.Symbolize. destruct (symbolizer w pc n) as [ok written]. simpl.
  rewrite length_take. unfold store_prefix.
  rewrite length_app, length_drop. lia.
Qed.

(** ** The capture phase *)

Section CaptureFacts.

Context (cfg : Config) (w : World).

Let MAX : Z := Z.of_nat (STX_MAX_STACK_FRAME_DEPTH cfg).

Lemma walker_limit : Z.of_nat (Z.to_nat (Int.to_int MAX)) <= MAX.
Proof.
  pose proof (IntFacts.to_int_le_of_nonneg MAX) as Hle.
  subst MAX. lia.
Qed.

Lemma ips_depth_range :
  0 <= backtrace.ips_depth (backtrace.capture cfg w) <= MAX
  /\ backtrace.ips_depth (backtrace.capture cfg w) < 2 ^ 31.
Proof.
  pose proof walker_limit as Hlim.
  pose proof (IntFacts.to_int_upper MAX) as Hup.
  unfold backtrace.capture, absl.GetStackTrace. simpl.
  fold MAX. rewrite length_take. lia.
Qed.

Lemma sps_depth_range :
  0 <= backtrace.sps_depth (backtrace.capture cfg w) <= MAX
  /\ backtrace.sps_depth (backtrace.capture cfg w) < 2 ^ 31.
Proof.
  pose proof walker_limit as Hlim.
  pose proof (IntFacts.to_int_upper MAX) as Hup.
  unfold backtrace.capture, absl.GetStackFrames. simpl.
  fold MAX. rewrite length_take. lia.
Qed.

Lemma effective_depth_min :
  backtrace.effective_depth cfg w =
  Z.min (backtrace.ips_depth (backtrace.capture cfg w))
        (backtrace.sps_depth (backtrace.capture cfg w)).
Proof.
  unfold backtrace.effective_depth.
  destruct (Z.gtb_spec (backtrace.ips_depth (backtrace.capture cfg w))
                       (backtrace.sps_depth (backtrace.capture cfg w))); lia.
Qed.

Lemma effective_depth_range :
  0 <= backtrace.effective_depth cfg w <= MAX
  /\ backtrace.effective_depth cfg w < 2 ^ 31.
Proof.
  rewrite effective_depth_min.
  pose proof ips_depth_range. pose proof sps_depth_range. lia.
Qed.

(** Below the effective depth, [ips[k]] is the [k]-th program counter
    above the frame of [trace] itself, and [sps[k]] the [k]-th frame
    address. *)
Lemma ips_lookup (k : nat) :
  Z.of_nat k < backtrace.effective_depth cfg w ->
  backtrace.ips (backtrace.capture cfg w) !! k = drop 1 (ip_walk w) !! k.
Proof.
  rewrite effective_depth_min. intros Hk.
  assert (Z.of_nat k < backtrace.ips_depth (backtrace.capture cfg w)) as Hk' by lia.
  clear Hk. revert Hk'.
  unfold backtrace.capture, absl.GetStackTrace. simpl. intros Hk.
  rewrite store_prefix_lookup by lia.
  rewrite length_take in Hk.
  rewrite lookup_take_lt by lia. reflexivity.
Qed.

Lemma sps_lookup (k : nat) :
  Z.of_nat k < backtrace.effective_depth cfg w ->
  backtrace.sps (backtrace.capture cfg w) !! k = fst <$> drop 1 (sp_walk w) !! k.
Proof.
  rewrite effective_depth_min. intros Hk.
  assert (Z.of_nat k < backtrace.sps_depth (backtrace.capture cfg w)) as Hk' by lia.
  clear Hk. revert Hk'.
  unfold backtrace.capture, absl.GetStackFrames. simpl. intros Hk.
  rewrite store_prefix_lookup by (rewrite length_fmap; lia).
  rewrite list_lookup_fmap.
  rewrite length_take in Hk.
  rewrite lookup_take_lt by lia. reflexivity.
Qed.

End CaptureFacts.

(** ** The loop *)

Section LoopFacts.

Context (cfg : Config) (w : World).
Context {V : Type} (callback : V -> backtrace.Frame -> Z -> bool * V).
Context (ips sps : list Z) (depth : Z).

Abbreviation step := (backtrace.trace_step cfg w callback ips sps depth).
Abbreviation loop := (backtrace.trace_loop cfg w callback ips sps depth).
Abbreviation zeros := (replicate (backtrace.max_len cfg) zero).
Abbreviation step_shape := (backtrace.step_shape cfg w ips sps depth).

Lemma trace_step_shape i buf vs : step_shape i buf (step i buf vs).2.
Proof.
  unfold step_shape, backtrace.trace_step.
  destruct (absl.Symbolize w _ _ _) as [ok buf'].
  destruct (callback vs _ _) as [stop vs'].
  destruct ok; simpl; repeat split; reflexivity.
Qed.

Lemma trace_step_buffer i buf vs :
  length buf = backtrace.max_len cfg ->
  length (step i buf vs).1.1 = backtrace.max_len cfg
  /\ backtrace.it_buffer (step i buf vs).2 = zeros.
Proof.
  intros Hlen.
  pose proof (Symbolize_length w (nth (Z.to_nat i) ips 0)
                (memset0 buf (backtrace.max_len cfg)) (backtrace.max_len cfg)) as HS.
  unfold backtrace.trace_step.
  destruct (absl.Symbolize w _ _ _) as [ok buf'].
  destruct (callback vs _ _) as [stop vs']. simpl in *.
  rewrite <- Hlen in *. rewrite memset0_full in *.
  rewrite length_replicate in HS. auto.
Qed.

Lemma trace_loop_unfold i rest buf vs :
  loop (i :: rest) buf vs =
  let r := step i buf vs in
  if backtrace.it_stop r.2 then (r.1.2, [r.2])
  else let r' := loop rest r.1.1 r.1.2 in (r'.1, r.2 :: r'.2).
Proof.
  simpl. destruct (step i buf vs) as [[buf' vs'] it]. simpl.
  destruct (backtrace.it_stop it); [reflexivity|].
  destruct (loop rest buf' vs'); reflexivity.
Qed.

Ltac loop_cases i rest buf vs :=
  rewrite trace_loop_unfold; cbv zeta;
  destruct (backtrace.it_stop (step i buf vs).2) eqn:Hstop; simpl.

(** The [k]-th iteration that ran is the body at the [k]-th index. *)
Lemma trace_loop_lookup idxs : forall buf vs k it,
  (loop idxs buf vs).2 !! k = Some it ->
  exists i b, idxs !! k = Some i /\ step_shape i b it.
Proof.
  induction idxs as [|i rest IH]; intros buf vs k it.
  - simpl. intros H. inversion H.
  - loop_cases i rest buf vs.
    + destruct k as [|k]; simpl; [|intros H; inversion H].
      intros [= <-]. exists i, buf. split; [reflexivity|apply trace_step_shape].
    + destruct k as [|k]; simpl.
      * intros [= <-]. exists i, buf. split; [reflexivity|apply trace_step_shape].
      * apply IH.
Qed.

(** No more iterations run than there are indices. *)
Lemma trace_loop_length idxs : forall buf vs,
  (length (loop idxs buf vs).2 <= length idxs)%nat.
Proof.
  induction idxs as [|i rest IH]; intros buf vs; [simpl; lia|].
  loop_cases i rest buf vs; [lia|].
  specialize (IH (step i buf vs).1.1 (step i buf vs).1.2). lia.
Qed.


(** After an iteration whose visitor call answers "go on", the next
    index runs too. *)
Lemma trace_loop_continues idxs : forall buf vs k it,
  (loop idxs buf vs).2 !! k = Some it ->
  backtrace.it_stop it = false ->
  (S k < length idxs)%nat ->
  is_Some ((loop idxs buf vs).2 !! S k).
Proof.
  induction idxs as [|i rest IH]; intros buf vs k it.
  - simpl. intros H. inversion H.
  - loop_cases i rest buf vs.
    + destruct k as [|k]; simpl; [|intros H; inversion H].
      intros [= <-] Hit. congruence.
    + destruct k as [|k]; simpl.
      * intros _ _ Hlen.
        destruct rest as [|j rest']; [simpl in Hlen; lia|].
        rewrite trace_loop_unfold. cbv zeta.
        destruct (backtrace.it_stop (step j _ _).2); simpl; eexists; reflexivity.
      * intros Hk Hit Hlen. eapply IH; [eassumption|assumption|lia].
Qed.

(** Without a "stop", every index runs. *)
Lemma trace_loop_full idxs : forall buf vs,
  Forall (fun it => backtrace.it_stop it = false) (loop idxs buf vs).2 ->
  length (loop idxs buf vs).2 = length idxs.
Proof.
  induction idxs as [|i rest IH]; intros buf vs; [reflexivity|].
  loop_cases i rest buf vs.
  - intros HF. apply Forall_cons in HF as [HF _]. congruence.
  - intros HF. apply Forall_cons in HF as [_ HF]. f_equal. now apply IH.
Qed.

(** The symbolizer is always handed an all-zero buffer. *)
Lemma trace_loop_zeroed idxs : forall buf vs,
  length buf = backtrace.max_len cfg ->
  Forall (fun it => backtrace.it_buffer it = zeros) (loop idxs buf vs).2.
Proof.
  induction idxs as [|i rest IH]; intros buf vs Hlen; [constructor|].
  destruct (trace_step_buffer i buf vs Hlen) as [Hlen' Hz].
  loop_cases i rest buf vs.
  - repeat constructor. exact Hz.
  - constructor; [exact Hz|]. now apply IH.
Qed.

End LoopFacts.

(** ** The whole trace *)

Section TraceFacts.

Context (cfg : Config) (w : World).
Context {V : Type} (callback : V -> backtrace.Frame -> Z -> bool * V) (vs : V).

Abbreviation depth := (backtrace.effective_depth cfg w).
Abbreviation run := (backtrace.trace cfg w callback vs).
Abbreviation zeros := (replicate (backtrace.max_len cfg) zero).
Abbreviation captured := (backtrace.capture cfg w).

Lemma trace_iterations :
  iterations run =
  (backtrace.trace_loop cfg w callback (backtrace.ips captured)
     (backtrace.sps captured) depth (seqZ 0 depth) zeros vs).2.
Proof.
  unfold iterations, backtrace.trace.
  destruct (backtrace.trace_loop _ _ _ _ _ _ _ _ _); reflexivity.
Qed.

Lemma trace_returned : returned run = depth.
Proof.
  unfold returned, backtrace.trace.
  destruct (backtrace.trace_loop _ _ _ _ _ _ _ _ _); simpl.
  apply IntFacts.to_size_t_small.
  pose proof (effective_depth_range cfg w). lia.
Qed.

Lemma trace_length : Z.of_nat (length (iterations run)) <= depth.
Proof.
  rewrite trace_iterations.
  pose proof (trace_loop_length cfg w callback (backtrace.ips captured)
                (backtrace.sps captured) depth (seqZ 0 depth) zeros vs) as Hle.
  rewrite length_seqZ in Hle.
  pose proof (effective_depth_range cfg w). lia.
Qed.

Lemma trace_lookup (k : nat) (it : backtrace.Iteration) :
  iterations run !! k = Some it ->
  Z.of_nat k < depth
  /\ backtrace.step_shape cfg w (backtrace.ips captured)
       (backtrace.sps captured) depth (Z.of_nat k) zeros it.
Proof.
  intros Hk.
  assert (Z.of_nat k < depth) as Hlt.
  { apply lookup_lt_Some in Hk. pose proof trace_length. lia. }
  split; [exact Hlt|].
  rewrite trace_iterations in Hk.
  pose proof (trace_loop_zeroed cfg w callback (backtrace.ips captured)
                (backtrace.sps captured) depth (seqZ 0 depth) zeros vs
                (length_replicate _ _)) as Hz.
  rewrite Forall_lookup in Hz. specialize (Hz k it Hk).
  apply trace_loop_lookup in Hk as (i & b & Hi & Hshape).
  apply lookup_seqZ in Hi as [-> _]. rewrite Z.add_0_l in Hshape.
  unfold backtrace.step_shape in *. cbv zeta in *.
  destruct Hshape as (Hpc & Hbuf & Hres & Hidx & Hip & Hsp & Hsym).
  rewrite <- Hbuf in Hres, Hsym. rewrite Hz in Hres, Hsym.
  rewrite memset0_zeros. repeat split; assumption.
Qed.

End TraceFacts.

(** Below the effective depth, the array entries are those of the
    walks: [ips[k]] is the [k]-th program counter above the frame of
    [trace] itself, [sps[k]] the [k]-th frame address. *)
Lemma ips_nth (cfg : Config) (w : World) (k : nat) :
  Z.of_nat k < backtrace.effective_depth cfg w ->
  drop 1 (ip_walk w) !! k =
  Some (nth k (backtrace.ips (backtrace.capture cfg w)) 0).
Proof.
  intros Hk. rewrite nth_lookup, ips_lookup by assumption.
  destruct (drop 1 (ip_walk w) !! k) as [x|] eqn:E; [reflexivity|].
  exfalso. apply lookup_ge_None in E.
  rewrite effective_depth_min in Hk.
  unfold backtrace.capture, absl.GetStackTrace in Hk.
  cbn [backtrace.ips_depth backtrace.sps_depth] in Hk.
  change (Z.to_nat 1) with 1%nat in Hk.
  rewrite length_take in Hk. lia.
Qed.

Lemma sps_nth (cfg : Config) (w : World) (k : nat) :
  Z.of_nat k < backtrace.effective_depth cfg w ->
  fst <$> drop 1 (sp_walk w) !! k =
  Some (nth k (backtrace.sps (backtrace.capture cfg w)) 0).
Proof.
  intros Hk. rewrite nth_lookup, sps_lookup by assumption.
  destruct (drop 1 (sp_walk w) !! k) as [x|] eqn:E; [reflexivity|].
  exfalso. apply lookup_ge_None in E.
  rewrite effective_depth_min in Hk.
  unfold backtrace.capture, absl.GetStackFrames in Hk.
  cbn [backtrace.ips_depth backtrace.sps_depth] in Hk.
  change (Z.to_nat 1) with 1%nat in Hk.
  rewrite (length_take (drop 1 (sp_walk w))) in Hk. lia.
Qed.

(** ** The numbers handed to the visitor *)



(** ** The effective depth *)


(** When the walks disagree (four program counters and two frames above
    [trace]) the shorter one decides. *)
Example trace_uneven_walks :
  let c := backtrace.capture Demo.cfg Demo.uneven_world in
  backtrace.ips_depth c = 4 /\ backtrace.sps_depth c = 2
  /\ returned (backtrace.trace Demo.cfg Demo.uneven_world Demo.never_stop tt) = 2.
Proof. vm_compute. repeat split. Qed.

(** ** Stopping early *)



(** ** The bound on the depth *)


(** Ten frames above [trace] with room for four: four are captured,
    returned and visited. *)
Example trace_deep_stack :
  let r := backtrace.trace Demo.cfg Demo.deep_world Demo.never_stop tt in
  length (drop 1 (ip_walk Demo.deep_world)) = 10%nat
  /\ returned r = 4 /\ length (iterations r) = 4%nat.
Proof. vm_compute. repeat split. Qed.

(** ** Symbol resolution *)

Lemma trace_loop_reaches (cfg : Config) (w : World) (V : Type)
    (callback : V -> backtrace.Frame -> Z -> bool * V)
    (ips sps : list Z) (depth : Z) (idxs : list Z) (buf : list ascii)
    (vs : V) (k : nat) :
  (k < length idxs)%nat ->
  (forall j it, (j < k)%nat ->
     (backtrace.trace_loop cfg w callback ips sps depth idxs buf vs).2 !! j
       = Some it ->
     backtrace.it_stop it = false) ->
  is_Some ((backtrace.trace_loop cfg w callback ips sps depth idxs buf vs).2 !! k).
Proof.
  induction k as [|k IH]; intros Hlen Hgo.
  - destruct idxs as [|i rest]; [simpl in Hlen; lia|].
    rewrite trace_loop_unfold. cbv zeta.
    destruct (backtrace.it_stop _); simpl; eexists; reflexivity.
  - destruct IH as [it Hk]; [lia|intros j it' Hj; apply Hgo; lia|].
    eapply trace_loop_continues; [exact Hk| |exact Hlen].
    apply (Hgo k); [lia|exact Hk].
Qed.

(** C7.  In every iteration of a trace the symbolizer is handed the
    buffer with all [STX_SYMBOL_BUFFER_SIZE] characters zero.  If it
    finds a symbol, the frame's symbol is that buffer as the symbolizer
    left it; if it does not, the frame's symbol is absent.  A failed
    resolution does not end the trace: unless the visitor asks to stop,
    the next frame is processed.  And the frames are processed: every
    index below the effective depth that no earlier "stop" cuts off has
    its iteration, so all of this holds of each such frame. *)
Theorem trace_symbol_resolution
    (cfg : Config) (w : World) (V : Type)
    (callback : V -> backtrace.Frame -> Z -> bool * V) (vs : V) :
  let n := STX_SYMBOL_BUFFER_SIZE cfg in
  let its := iterations (backtrace.trace cfg w callback vs) in
  (forall it, it ∈ its ->
     let answer := absl.Symbolize w (backtrace.it_pc it) (replicate n zero) n in
     backtrace.it_buffer it = replicate n zero
     /\ backtrace.it_resolved it = answer.1
     /\ (answer.1 = true ->
         backtrace.symbol (backtrace.it_frame it) =
         Some {| backtrace.symbol_ :=
                   {| backtrace.data := answer.2; backtrace.size := n |} |})
     /\ (answer.1 = false -> backtrace.symbol (backtrace.it_frame it) = None))
  /\ (forall k it, its !! k = Some it ->
        backtrace.it_resolved it = false ->
        backtrace.it_stop it = false ->
        Z.of_nat (S k) < backtrace.effective_depth cfg w ->
        is_Some (its !! S k))
  /\ (forall k, Z.of_nat k < backtrace.effective_depth cfg w ->
        (forall j it, (j < k)%nat -> its !! j = Some it ->
           backtrace.it_stop it = false) ->
        is_Some (its !! k)).
Proof.
  intros n its. split; [|split].
  - intros it Hin. apply list_elem_of_lookup in Hin as [k Hk].
    apply (trace_lookup cfg w callback vs) in Hk as [_ Hshape].
    destruct Hshape as (Hpc & Hbuf & Hres & _ & _ & _ & Hsym).
    rewrite memset0_zeros in *. rewrite <- Hpc in *.
    fold n in Hbuf, Hres, Hsym. unfold backtrace.max_len in *. fold n in Hbuf, Hres, Hsym.
    cbv zeta. repeat split; try assumption.
    + intros Hok. rewrite Hsym, Hok. reflexivity.
    + intros Hko. rewrite Hsym, Hko. reflexivity.
  - intros k it Hk _ Hgo Hlt. subst its.
    rewrite trace_iterations in *.
    eapply trace_loop_continues; [eassumption|assumption|].
    rewrite length_seqZ. lia.
  - intros k Hlt Hgo. subst its. rewrite trace_iterations in *.
    apply trace_loop_reaches; [rewrite length_seqZ; lia|exact Hgo].
Qed.

(** The demo stack under a visitor that never stops: the helper between
    [foo] and [main], whose address has no symbol, has its iteration;
    it was resolved over a zero buffer, its frame carries no symbol, and
    [main] is processed after it and carries its own name. *)
Lemma trace_symbol_resolution_witness :
  let its := iterations (backtrace.trace Demo.cfg Demo.world Demo.never_stop tt) in
  exists helper main,
    its !! 1%nat = Some helper
    /\ backtrace.it_pc helper = 12288
    /\ backtrace.it_buffer helper = replicate 8 zero
    /\ backtrace.it_resolved helper = false
    /\ backtrace.symbol (backtrace.it_frame helper) = None
    /\ its !! 2%nat = Some main
    /\ backtrace.raw <$> backtrace.symbol (backtrace.it_frame main)
       = Some "main"%string.
Proof.
  cbv zeta.
  pose proof (trace_symbol_resolution Demo.cfg Demo.world unit
                Demo.never_stop tt) as H.
  cbv zeta in H. destruct H as (Hall & Hnext & Hreach).
  assert (forall j it,
            iterations (backtrace.trace Demo.cfg Demo.world Demo.never_stop tt)
              !! j = Some it -> backtrace.it_stop it = false) as Hgo.
  { intros j it Hj. vm_compute in Hj.
    destruct j as [|[|[|j]]]; simpl in Hj; [| | |discriminate Hj];
      injection Hj as <-; reflexivity. }
  destruct (Hreach 1%nat) as [helper Eh].
  { vm_compute. reflexivity. }
  { intros j it _. apply Hgo. }
  assert (backtrace.it_pc helper = 12288) as Hpc.
  { vm_compute in Eh. injection Eh as <-. reflexivity. }
  destruct (Hall helper (list_elem_of_lookup_2 _ _ _ Eh))
    as (Hbuf & Hres & _ & Hnone).
  rewrite Hpc in Hres, Hnone.
  assert ((absl.Symbolize Demo.world 12288
             (replicate (STX_SYMBOL_BUFFER_SIZE Demo.cfg) zero)
             (STX_SYMBOL_BUFFER_SIZE Demo.cfg)).1 = false) as Hfail
    by (vm_compute; reflexivity).
  rewrite Hfail in Hres. specialize (Hnone Hfail).
  destruct (Hnext 1%nat helper Eh Hres (Hgo _ _ Eh)) as [main Em].
  { vm_compute. reflexivity. }
  exists helper, main.
  split; [exact Eh|]. split; [exact Hpc|]. split; [exact Hbuf|].
  split; [exact Hres|]. split; [exact Hnone|]. split; [exact Em|].
  vm_compute in Em. injection Em as <-. vm_compute. reflexivity.
Defined.

(** In the demo stack the helper between [foo] and [main] has no symbol:
    its frame carries none, the buffer it was resolved over was zero,
    and [main] is still reported after it, with its own name. *)
Example trace_unresolved_frame :
  let its := iterations (backtrace.trace Demo.cfg Demo.world Demo.never_stop tt) in
  (backtrace.it_resolved <$> its) = [true; false; true]
  /\ (fmap backtrace.raw ∘ backtrace.symbol ∘ backtrace.it_frame <$> its)
     = [Some "foo"; None; Some "main"]%string.
Proof. vm_compute. split; reflexivity. Qed.

(** ** The address fields *)


(** ** The crash reporter only appends *)

Lemma string_app_assoc (a b c : string) : (a +:+ b) +:+ c = a +:+ (b +:+ c).
Proof.
  induction a as [|x a IH]; [reflexivity|].
  change (String x ((a +:+ b) +:+ c) = String x (a +:+ (b +:+ c))).
  now rewrite IH.
Qed.

Lemma string_app_nil_r (a : string) : a +:+ EmptyString = a.
Proof.
  induction a as [|x a IH]; [reflexivity|].
  change (String x (a +:+ EmptyString) = String x a).
  now rewrite IH.
Qed.

Lemma print_frame_app (stderr : string) (frame : backtrace.Frame) (i : Z) :
  print_frame stderr frame i = (false, stderr +:+ frame_line frame i).
Proof.
  unfold frame_line, print_frame, print_none, fputs.
  destruct (backtrace.symbol frame), (backtrace.ip frame), (backtrace.sp frame);
    cbn [fst snd]; f_equal; rewrite !string_app_assoc; reflexivity.
Qed.

Section ReporterFacts.

Context (cfg : Config) (w : World) (ips sps : list Z) (depth : Z).

Abbreviation pstep := (backtrace.trace_step cfg w print_frame ips sps depth).
Abbreviation ploop := (backtrace.trace_loop cfg w print_frame ips sps depth).

Lemma print_step_app i buf (stderr : string) :
  pstep i buf stderr =
  ((pstep i buf EmptyString).1.1,
   stderr +:+ (pstep i buf EmptyString).1.2,
   (pstep i buf EmptyString).2).
Proof.
  unfold backtrace.trace_step.
  destruct (absl.Symbolize w _ _ _) as [ok buf'].
  rewrite (print_frame_app stderr), (print_frame_app EmptyString).
  reflexivity.
Qed.

Lemma print_loop_app idxs : forall buf (stderr : string),
  ploop idxs buf stderr =
  (stderr +:+ (ploop idxs buf EmptyString).1, (ploop idxs buf EmptyString).2).
Proof.
  induction idxs as [|i rest IH]; intros buf stderr.
  - simpl. now rewrite string_app_nil_r.
  - rewrite !trace_loop_unfold. cbv zeta.
    rewrite (print_step_app i buf stderr). cbn [fst snd].
    destruct (backtrace.it_stop (pstep i buf EmptyString).2); cbn [fst snd].
    + reflexivity.
    + rewrite (IH _ (stderr +:+ _)), (IH _ (pstep i buf EmptyString).1.2).
      cbn [fst snd]. now rewrite string_app_assoc.
Qed.

End ReporterFacts.

Lemma print_backtrace_app (cfg : Config) (w : World) (stderr : string) :
  print_backtrace cfg w stderr = stderr +:+ print_backtrace cfg w EmptyString.
Proof.
  unfold print_backtrace, backtrace.trace, fputs.
  rewrite print_loop_app.
  rewrite (print_loop_app _ _ _ _ _ _ _ (EmptyString +:+ backtrace_preamble)).
  cbn [fst snd]. rewrite !string_app_assoc. reflexivity.
Qed.

(** ** The fault handler *)

(** C8, as the code has it.  For each of the three supported signals
    the handler writes, after two line breaks, the diagnostic of that
    signal, which is one of the three sentences below, then the crash
    report of [print_backtrace], and ends in [abort]: it never returns.
    The sentences carry the phrases of the specification with another
    letter case, inside a longer text. *)
Theorem signal_handler_reports_then_aborts
    (cfg : Config) (w : World) (signal : Z) (stderr : string) :
  signal ∈ supported_signals ->
  exists text,
    ((signal = SIGSEGV /\
      text = "Received 'SIGSEGV' signal. Invalid memory access occurred (segmentation fault)."%string)
     \/ (signal = SIGILL /\
         text = "Received 'SIGILL' signal. Invalid program image (illegal/invalid instruction, i.e. nullptr dereferencing)."%string)
     \/ (signal = SIGFPE /\
         text = "Received 'SIGFPE' signal. Erroneous arithmetic operation (i.e. divide by zero)."%string))
    /\ (exists phrase, (signal, phrase) ∈ diagnostic_phrases
                       /\ contains phrase (lower text) = true)
    /\ signal_handler cfg w signal stderr =
       (stderr +:+ (nl +:+ nl) +:+ text +:+ print_backtrace cfg w EmptyString,
        Aborts).
Proof.
  intros Hin. exists (signal_diagnostic signal).
  split; [|split].
  - unfold supported_signals in Hin.
    apply elem_of_cons in Hin as [->|Hin]; [left; split; reflexivity|].
    apply elem_of_cons in Hin as [->|Hin]; [right; left; split; reflexivity|].
    apply elem_of_cons in Hin as [->|Hin]; [right; right; split; reflexivity|].
    inversion Hin.
  - unfold supported_signals in Hin.
    apply elem_of_cons in Hin as [->|Hin].
    { eexists. split; [apply list_elem_of_here|vm_compute; reflexivity]. }
    apply elem_of_cons in Hin as [->|Hin].
    { eexists. split; [apply list_elem_of_further, list_elem_of_here|].
      vm_compute; reflexivity. }
    apply elem_of_cons in Hin as [->|Hin]; [|inversion Hin].
    eexists. split; [do 2 apply list_elem_of_further; apply list_elem_of_here|].
    vm_compute; reflexivity.
  - unfold signal_handler, fputs. rewrite print_backtrace_app.
    now rewrite !string_app_assoc.
Qed.

Lemma signal_handler_reports_then_aborts_witness :
  SIGSEGV ∈ supported_signals
  /\ signal_handler Demo.cfg Demo.world SIGSEGV EmptyString =
     (nl +:+ nl +:+
      "Received 'SIGSEGV' signal. Invalid memory access occurred (segmentation fault)."
      +:+ print_backtrace Demo.cfg Demo.world EmptyString,
      Aborts).
Proof.
  assert (SIGSEGV ∈ supported_signals) as Hin by apply list_elem_of_here.
  split; [exact Hin|].
  destruct (signal_handler_reports_then_aborts Demo.cfg Demo.world SIGSEGV
              EmptyString Hin) as (text & Htext & _ & Hrun).
  destruct Htext as [[_ ->]|[[Hne _]|[Hne _]]];
    [exact Hrun|discriminate Hne|discriminate Hne].
Defined.

(** C8 as worded fails: on a segmentation fault nothing the handler
    writes is, or contains, the text "invalid memory access"; the
    diagnostic is a longer sentence that begins the phrase with a
    capital letter. *)
Lemma signal_handler_phrase_not_written :
  (SIGSEGV, "invalid memory access"%string) ∈ diagnostic_phrases
  /\ signal_diagnostic SIGSEGV <> "invalid memory access"%string
  /\ contains "invalid memory access"
       (signal_handler Demo.cfg Demo.world SIGSEGV EmptyString).1 = false.
Proof.
  split; [apply list_elem_of_here|]. split; [discriminate|].
  vm_compute. reflexivity.
Qed.

(** The three diagnostics, word for word. *)
Example signal_diagnostic_texts :
  signal_diagnostic SIGSEGV =
    ("Received 'SIGSEGV' signal. Invalid memory access occurred " +:+
     "(segmentation fault).")
  /\ signal_diagnostic SIGILL =
    ("Received 'SIGILL' signal. Invalid program image (illegal/invalid " +:+
     "instruction, i.e. nullptr dereferencing).")
  /\ signal_diagnostic SIGFPE =
    ("Received 'SIGFPE' signal. Erroneous arithmetic operation (i.e. " +:+
     "divide by zero).").
Proof. repeat split. Qed.

(** ** Registering the handler *)

Lemma supported_signals_spec (signal : Z) :
  signal ∈ supported_signals <->
  negb (signal =? SIGSEGV) && negb (signal =? SIGILL)
  && negb (signal =? SIGFPE) = false.
Proof.
  unfold supported_signals. rewrite !elem_of_cons, elem_of_nil.
  destruct (Z.eqb_spec signal SIGSEGV), (Z.eqb_spec signal SIGILL),
    (Z.eqb_spec signal SIGFPE); simpl; intuition congruence.
Qed.

Lemma handle_signal_supported (os : OS) (signal : Z) :
  signal ∈ supported_signals ->
  handle_signal os signal =
  if rejects os signal then (Err backtrace.SigErr, os)
  else (Ok (disposition os signal),
        {| dispositions := <[signal := signal_handler_ptr]> (dispositions os);
           rejects := rejects os |}).
Proof.
  intros Hs%supported_signals_spec. unfold handle_signal, std.signal.
  rewrite Hs. destruct (rejects os signal); reflexivity.
Qed.

Lemma handle_signal_unsupported (os : OS) (signal : Z) :
  signal ∉ supported_signals ->
  handle_signal os signal = (Err backtrace.Unknown, os).
Proof.
  intros Hs. unfold handle_signal.
  destruct (negb (signal =? SIGSEGV) && negb (signal =? SIGILL)
            && negb (signal =? SIGFPE)) eqn:E; [reflexivity|].
  exfalso. now apply Hs, supported_signals_spec.
Qed.

(** C3.  For a supported signal that the system accepts,
    [handle_signal] returns [Ok] with the disposition the signal had
    before (the default one in a fresh process) and leaves the internal
    handler installed; a second call succeeds as well and returns the
    internal handler the first call installed. *)
Theorem handle_signal_returns_previous (os : OS) (signal : Z) :
  signal ∈ supported_signals ->
  rejects os signal = false ->
  let first := handle_signal os signal in
  let second := handle_signal first.2 signal in
  first.1 = Ok (disposition os signal)
  /\ (dispositions os = ∅ -> first.1 = Ok SIG_DFL)
  /\ disposition first.2 signal = signal_handler_ptr
  /\ second.1 = Ok signal_handler_ptr
  /\ disposition second.2 signal = signal_handler_ptr.
Proof.
  intros Hs Hacc first second. subst second first.
  rewrite (handle_signal_supported os) by assumption. rewrite Hacc.
  cbn [fst snd].
  rewrite handle_signal_supported by assumption. cbn [rejects].
  rewrite Hacc. cbn [fst snd].
  unfold disposition. cbn [dispositions].
  rewrite !lookup_insert_eq. cbn [default].
  repeat split. intros ->. now rewrite lookup_empty.
Qed.

Lemma handle_signal_returns_previous_witness :
  let first := handle_signal Demo.accepting_os SIGSEGV in
  let second := handle_signal first.2 SIGSEGV in
  first.1 = Ok SIG_DFL /\ second.1 = Ok signal_handler_ptr.
Proof.
  destruct (handle_signal_returns_previous Demo.accepting_os SIGSEGV)
    as (_ & Hfirst & _ & Hsecond & _).
  - apply list_elem_of_here.
  - reflexivity.
  - split; [apply Hfirst; reflexivity|exact Hsecond].
Defined.

(** C4.  [handle_signal] fails with [Unknown] exactly for the signals
    outside the supported set, and with [SigErr] exactly when the
    registration it attempts (for a supported signal) is refused by the
    system; in both cases the signal state is what it was: nothing is
    installed and every disposition is unchanged. *)
Theorem handle_signal_errors (os : OS) (signal : Z) :
  let r := handle_signal os signal in
  (r.1 = Err backtrace.Unknown <-> signal ∉ supported_signals)
  /\ (r.1 = Err backtrace.SigErr <->
      signal ∈ supported_signals /\ rejects os signal = true)
  /\ (forall e, r.1 = Err e ->
      r.2 = os /\ forall s, disposition r.2 s = disposition os s).
Proof.
  cbv zeta.
  destruct (decide (signal ∈ supported_signals)) as [Hs|Hs].
  - rewrite handle_signal_supported by assumption.
    destruct (rejects os signal); cbn [fst snd].
    + split; [|split].
      * split; [discriminate|contradiction].
      * split; auto.
      * auto.
    + split; [|split].
      * split; [discriminate|contradiction].
      * split; [discriminate|intros [_ [=]]].
      * discriminate.
  - rewrite handle_signal_unsupported by assumption. cbn [fst snd].
    split; [|split].
    + split; auto.
    + split; [discriminate|intros [? _]; contradiction].
    + auto.
Qed.

(** A termination request is refused with [Unknown] and changes nothing;
    a supported signal that the system refuses gives [SigErr]. *)
Example handle_signal_sigterm :
  (handle_signal Demo.accepting_os SIGTERM).1 = Err backtrace.Unknown
  /\ (handle_signal (initial_os (fun _ => true)) SIGFPE).1 = Err backtrace.SigErr.
Proof. split; reflexivity. Qed.

(** ** Source locations *)

(** C9, as the code has it.  Without compiler support,
    [SourceLocation::current()] with all arguments defaulted yields the
    text "unknown" for the file and for the function, and zero for the
    line and the column. *)
Theorem current_fallback_placeholders (site : SourceLocation.CallSite) :
  SourceLocation.current SourceLocation.no_builtins site None None None None =
  {| SourceLocation.line_ := 0; SourceLocation.column_ := 0;
     SourceLocation.file_ := "unknown"; SourceLocation.func_ := "unknown" |}.
Proof. reflexivity. Qed.

(** C9 as worded fails: the file and function fields of the fallback
    are not empty text. *)
Lemma current_fallback_not_empty :
  let loc := SourceLocation.current SourceLocation.no_builtins Demo.site
               None None None None in
  ~ (SourceLocation.file_name loc = EmptyString
     /\ SourceLocation.function_name loc = EmptyString
     /\ SourceLocation.line loc = 0
     /\ SourceLocation.column loc = 0).
Proof. cbv zeta. intros [Hfile _]. vm_compute in Hfile. discriminate Hfile. Qed.

(** Each field falls back on its own, according to its builtin. *)
Lemma current_fallback_per_field (b : SourceLocation.Builtins)
    (site : SourceLocation.CallSite) :
  let loc := SourceLocation.current b site None None None None in
  (SourceLocation.has_FILE b = false -> SourceLocation.file_name loc = "unknown")
  /\ (SourceLocation.has_FUNCTION b = false ->
      SourceLocation.function_name loc = "unknown")
  /\ (SourceLocation.has_LINE b = false -> SourceLocation.line loc = 0)
  /\ (SourceLocation.has_COLUMN b = false -> SourceLocation.column loc = 0).
Proof.
  cbv zeta. unfold SourceLocation.current, SourceLocation.file_name,
    SourceLocation.function_name, SourceLocation.line, SourceLocation.column,
    SourceLocation.default_file, SourceLocation.default_func,
    SourceLocation.default_line, SourceLocation.default_column.
  cbn. repeat split; intros ->; reflexivity.
Qed.

(** * Further properties of the code *)

(** ** The depth of a trace *)

Lemma trace_of_zero_depth (cfg : Config) (w : World) (V : Type)
    (callback : V -> backtrace.Frame -> Z -> bool * V) (vs : V) :
  backtrace.effective_depth cfg w = 0 ->
  backtrace.trace cfg w callback vs = (0, vs, []).
Proof. intros H. unfold backtrace.trace. rewrite H. reflexivity. Qed.

(** X1.  With an array length that fits an [int], [trace] returns
    exactly the smallest of three numbers: the array length, the number
    of program counters above its own frame, and the number of frames
    above its own frame. *)
Theorem trace_returns_exact_depth
    (cfg : Config) (w : World) (V : Type)
    (callback : V -> backtrace.Frame -> Z -> bool * V) (vs : V) :
  Z.of_nat (STX_MAX_STACK_FRAME_DEPTH cfg) < 2 ^ 31 ->
  returned (backtrace.trace cfg w callback vs) =
  Z.of_nat (Nat.min (STX_MAX_STACK_FRAME_DEPTH cfg)
              (Nat.min (length (ip_walk w) - 1) (length (sp_walk w) - 1))).
Proof.
  intros Hfit. rewrite trace_returned, effective_depth_min.
  unfold backtrace.capture, absl.GetStackTrace, absl.GetStackFrames.
  cbn [backtrace.ips_depth backtrace.sps_depth].
  change (Z.to_nat 1) with 1%nat.
  unfold Int.to_int. rewrite Z.mod_small by lia.
  rewrite !length_take, !length_drop.
  replace (Z.to_nat (Z.of_nat (STX_MAX_STACK_FRAME_DEPTH cfg) + 2 ^ 31 - 2 ^ 31))
    with (STX_MAX_STACK_FRAME_DEPTH cfg) by lia.
  lia.
Qed.

Lemma trace_returns_exact_depth_witness :
  returned (backtrace.trace Demo.cfg Demo.deep_world Demo.never_stop tt)
  = Z.of_nat (Nat.min 4 (Nat.min (11 - 1) (11 - 1))).
Proof.
  apply (trace_returns_exact_depth Demo.cfg Demo.deep_world unit
           Demo.never_stop tt).
  vm_compute. reflexivity.
Defined.

(** X2.  When a walk finds nothing above the frame of [trace], or the
    arrays have no room, [trace] returns 0, never calls the visitor and
    leaves the visitor's state as it was. *)
Theorem trace_without_frames
    (cfg : Config) (w : World) (V : Type)
    (callback : V -> backtrace.Frame -> Z -> bool * V) (vs : V) :
  (length (ip_walk w) <= 1)%nat \/ (length (sp_walk w) <= 1)%nat
  \/ STX_MAX_STACK_FRAME_DEPTH cfg = 0%nat ->
  backtrace.trace cfg w callback vs = (0, vs, []).
Proof.
  intros Hnone. apply trace_of_zero_depth.
  pose proof (effective_depth_range cfg w) as [[Hlo _] _].
  rewrite effective_depth_min in *.
  unfold backtrace.capture, absl.GetStackTrace, absl.GetStackFrames in *.
  cbn [backtrace.ips_depth backtrace.sps_depth] in *.
  change (Z.to_nat 1) with 1%nat in *.
  rewrite !length_take, !length_drop in *.
  destruct Hnone as [H|[H|H]]; [lia|lia|].
  rewrite H in *. change (Z.to_nat (Int.to_int (Z.of_nat 0))) with 0%nat in *.
  lia.
Qed.

Lemma trace_without_frames_witness :
  backtrace.trace Demo.cfg
    {| ip_walk := [4096]; sp_walk := [(1000, 16)];
       symbolizer := Demo.table_symbolizer [] |}
    Demo.stop_at_once tt
  = (0, tt, []).
Proof.
  apply trace_without_frames. left. simpl. lia.
Defined.

(** ** Runs that are not stopped *)

Lemma trace_step_callback (cfg : Config) (w : World) (V : Type)
    (callback : V -> backtrace.Frame -> Z -> bool * V)
    (ips sps : list Z) (depth i : Z) (buf : list ascii) (vs : V) :
  let r := backtrace.trace_step cfg w callback ips sps depth i buf vs in
  callback vs (backtrace.it_frame r.2) (backtrace.it_displayIndex r.2)
  = (backtrace.it_stop r.2, r.1.2).
Proof.
  cbv zeta. unfold backtrace.trace_step.
  destruct (absl.Symbolize w _ _ _) as [ok buf'].
  match goal with
  | |- context [let '(_, _) := ?c in _] => destruct c as [stop vs'] eqn:E
  end.
  cbn [fst snd backtrace.it_frame backtrace.it_displayIndex backtrace.it_stop].
  exact E.
Qed.

Lemma trace_loop_replay (cfg : Config) (w : World) (V : Type)
    (callback : V -> backtrace.Frame -> Z -> bool * V)
    (ips sps : list Z) (depth : Z) (idxs : list Z) :
  forall buf vs,
  let r := backtrace.trace_loop cfg w callback ips sps depth idxs buf vs in
  r.1 = replay callback vs r.2
  /\ forall k it, r.2 !! k = Some it ->
       backtrace.it_stop it =
       (callback (replay callback vs (take k r.2))
          (backtrace.it_frame it) (backtrace.it_displayIndex it)).1.
Proof.
  induction idxs as [|i rest IH]; intros buf vs; cbv zeta.
  - simpl. split; [reflexivity|]. intros k it H. inversion H.
  - rewrite trace_loop_unfold. cbv zeta.
    pose proof (trace_step_callback cfg w V callback ips sps depth i buf vs) as Hcb.
    cbv zeta in Hcb.
    set (r := backtrace.trace_step cfg w callback ips sps depth i buf vs) in *.
    destruct (backtrace.it_stop r.2) eqn:Hstop; cbn [fst snd].
    + split.
      * unfold replay. simpl. now rewrite Hcb.
      * intros [|k] it; simpl; [|intros H; inversion H].
        intros [= <-]. now rewrite Hcb.
    + destruct (IH r.1.1 r.1.2) as [IH1 IH2]. split.
      * rewrite IH1. unfold replay at 2. simpl. now rewrite Hcb.
      * intros [|k] it; simpl.
        -- intros [= <-]. now rewrite Hcb.
        -- intros Hk. rewrite (IH2 k it Hk).
           unfold replay at 2. simpl. now rewrite Hcb.
Qed.

Lemma trace_final_state_replay (cfg : Config) (w : World) (V : Type)
    (callback : V -> backtrace.Frame -> Z -> bool * V) (vs : V) :
  final_state (backtrace.trace cfg w callback vs)
  = replay callback vs (iterations (backtrace.trace cfg w callback vs)).
Proof.
  pose proof (trace_loop_replay cfg w V callback
                (backtrace.ips (backtrace.capture cfg w))
                (backtrace.sps (backtrace.capture cfg w))
                (backtrace.effective_depth cfg w)
                (seqZ 0 (backtrace.effective_depth cfg w))
                (replicate (backtrace.max_len cfg) zero) vs) as [H _].
  rewrite trace_iterations.
  unfold final_state, backtrace.trace.
  destruct (backtrace.trace_loop _ _ _ _ _ _ _ _ _) as [vs' its].
  exact H.
Qed.

Lemma trace_never_stopped_length (cfg : Config) (w : World) (V : Type)
    (callback : V -> backtrace.Frame -> Z -> bool * V) (vs : V) :
  (forall s frame i, (callback s frame i).1 = false) ->
  Z.of_nat (length (iterations (backtrace.trace cfg w callback vs)))
  = backtrace.effective_depth cfg w.
Proof.
  intros Hgo. rewrite trace_iterations.
  rewrite trace_loop_full.
  - rewrite length_seqZ. pose proof (effective_depth_range cfg w). lia.
  - apply Forall_lookup. intros k it Hk.
    destruct (trace_loop_replay cfg w V callback
                (backtrace.ips (backtrace.capture cfg w))
                (backtrace.sps (backtrace.capture cfg w))
                (backtrace.effective_depth cfg w)
                (seqZ 0 (backtrace.effective_depth cfg w))
                (replicate (backtrace.max_len cfg) zero) vs) as [_ Hstop].
    rewrite (Hstop k it Hk). apply Hgo.
Qed.




(** X4.  The visitor is called on the frames in order, each call
    starting from the state the previous call left: the state [trace]
    ends with is the one obtained by running the visitor over the
    recorded frames, and each recorded answer is the visitor's answer
    in the state reached before that frame. *)
Theorem trace_threads_visitor_state
    (cfg : Config) (w : World) (V : Type)
    (callback : V -> backtrace.Frame -> Z -> bool * V) (vs : V) :
  let r := backtrace.trace cfg w callback vs in
  final_state r = replay callback vs (iterations r)
  /\ forall k it, iterations r !! k = Some it ->
       backtrace.it_stop it =
       (callback (replay callback vs (take k (iterations r)))
          (backtrace.it_frame it) (backtrace.it_displayIndex it)).1.
Proof.
  cbv zeta.
  pose proof (trace_loop_replay cfg w V callback
                (backtrace.ips (backtrace.capture cfg w))
                (backtrace.sps (backtrace.capture cfg w))
                (backtrace.effective_depth cfg w)
                (seqZ 0 (backtrace.effective_depth cfg w))
                (replicate (backtrace.max_len cfg) zero) vs) as H.
  cbv zeta in H. rewrite trace_iterations.
  unfold final_state, backtrace.trace.
  destruct (backtrace.trace_loop _ _ _ _ _ _ _ _ _) as [vs' its].
  exact H.
Qed.

(** ** What the visitor cannot influence *)

Lemma trace_step_observed (cfg : Config) (w : World) (V1 V2 : Type)
    (cb1 : V1 -> backtrace.Frame -> Z -> bool * V1)
    (cb2 : V2 -> backtrace.Frame -> Z -> bool * V2)
    (ips sps : list Z) (depth i : Z) (buf : list ascii) (s1 : V1) (s2 : V2) :
  let r1 := backtrace.trace_step cfg w cb1 ips sps depth i buf s1 in
  let r2 := backtrace.trace_step cfg w cb2 ips sps depth i buf s2 in
  r1.1.1 = r2.1.1 /\ observed r1.2 = observed r2.2.
Proof.
  cbv zeta. unfold backtrace.trace_step.
  destruct (absl.Symbolize w _ _ _) as [ok buf'].
  do 2 match goal with
  | |- context [let '(_, _) := ?c in _] => destruct c as [? ?]
  end.
  split; reflexivity.
Qed.

Lemma trace_loop_observed (cfg : Config) (w : World) (V1 V2 : Type)
    (cb1 : V1 -> backtrace.Frame -> Z -> bool * V1)
    (cb2 : V2 -> backtrace.Frame -> Z -> bool * V2)
    (ips sps : list Z) (depth : Z) (idxs : list Z) :
  (forall s frame i, (cb2 s frame i).1 = false) ->
  forall buf s1 s2,
  observed <$> (backtrace.trace_loop cfg w cb1 ips sps depth idxs buf s1).2
  `prefix_of`
  observed <$> (backtrace.trace_loop cfg w cb2 ips sps depth idxs buf s2).2.
Proof.
  intros Hgo. induction idxs as [|i rest IH]; intros buf s1 s2.
  - simpl. apply prefix_nil.
  - rewrite !trace_loop_unfold. cbv zeta.
    pose proof (trace_step_observed cfg w V1 V2 cb1 cb2 ips sps depth i buf s1 s2)
      as [Hbuf Hobs].
    pose proof (trace_step_callback cfg w V2 cb2 ips sps depth i buf s2) as Hcb.
    cbv zeta in Hcb. apply (f_equal fst) in Hcb. rewrite Hgo in Hcb.
    cbn [fst] in Hcb. rewrite <- Hcb. clear Hcb.
    destruct (backtrace.it_stop _); cbn [fst snd];
      rewrite !fmap_cons, Hobs.
    + apply prefix_cons, prefix_nil.
    + apply prefix_cons. rewrite Hbuf. apply IH.
Qed.

(** X5.  The frames a visitor is shown do not depend on the visitor: the
    frames, numbers and symbolizer calls of any run are an initial part
    of those of a run that is never stopped. *)
Theorem trace_frames_independent_of_visitor
    (cfg : Config) (w : World) (V1 V2 : Type)
    (cb1 : V1 -> backtrace.Frame -> Z -> bool * V1)
    (cb2 : V2 -> backtrace.Frame -> Z -> bool * V2) (s1 : V1) (s2 : V2) :
  (forall s frame i, (cb2 s frame i).1 = false) ->
  observed <$> iterations (backtrace.trace cfg w cb1 s1)
  `prefix_of` observed <$> iterations (backtrace.trace cfg w cb2 s2).
Proof.
  intros Hgo. rewrite !trace_iterations. now apply trace_loop_observed.
Qed.

Lemma trace_frames_independent_of_visitor_witness :
  observed <$> iterations (backtrace.trace Demo.cfg Demo.world Demo.stop_at_once tt)
  `prefix_of`
  observed <$> iterations (backtrace.trace Demo.cfg Demo.world Demo.never_stop tt).
Proof.
  apply trace_frames_independent_of_visitor. intros s frame i. reflexivity.
Defined.

(** ** Arrays and the symbol buffer *)

(** X6.  The three arrays keep their declared length, and every index
    the loop reads [ips] and [sps] at lies inside them. *)
Theorem trace_indices_in_bounds
    (cfg : Config) (w : World) (V : Type)
    (callback : V -> backtrace.Frame -> Z -> bool * V) (vs : V) :
  let c := backtrace.capture cfg w in
  length (backtrace.ips c) = STX_MAX_STACK_FRAME_DEPTH cfg
  /\ length (backtrace.sps c) = STX_MAX_STACK_FRAME_DEPTH cfg
  /\ length (backtrace.sizes c) = STX_MAX_STACK_FRAME_DEPTH cfg
  /\ forall k it,
       iterations (backtrace.trace cfg w callback vs) !! k = Some it ->
       (k < length (backtrace.ips c))%nat /\ (k < length (backtrace.sps c))%nat
       /\ backtrace.it_pc it = nth k (backtrace.ips c) 0.
Proof.
  cbv zeta.
  pose proof (walker_limit cfg) as Hlim.
  assert (length (backtrace.ips (backtrace.capture cfg w))
          = STX_MAX_STACK_FRAME_DEPTH cfg) as Hips.
  { unfold backtrace.capture, absl.GetStackTrace. cbn [backtrace.ips].
    rewrite store_prefix_length; rewrite length_replicate; [reflexivity|].
    rewrite length_take. lia. }
  assert (length (backtrace.sps (backtrace.capture cfg w))
          = STX_MAX_STACK_FRAME_DEPTH cfg) as Hsps.
  { unfold backtrace.capture, absl.GetStackFrames. cbn [backtrace.sps].
    rewrite store_prefix_length; rewrite length_replicate; [reflexivity|].
    rewrite length_fmap, length_take. lia. }
  assert (length (backtrace.sizes (backtrace.capture cfg w))
          = STX_MAX_STACK_FRAME_DEPTH cfg) as Hsizes.
  { unfold backtrace.capture, absl.GetStackFrames. cbn [backtrace.sizes].
    rewrite store_prefix_length; rewrite length_replicate; [reflexivity|].
    rewrite length_fmap, length_take. lia. }
  repeat split; try assumption.
  - apply (trace_lookup cfg w callback vs) in H as [Hlt _].
    pose proof (effective_depth_range cfg w). lia.
  - apply (trace_lookup cfg w callback vs) in H as [Hlt _].
    pose proof (effective_depth_range cfg w). lia.
  - apply (trace_lookup cfg w callback vs) in H as [_ (Hpc & _)].
    now rewrite Nat2Z.id in Hpc.
Qed.




Lemma c_str_terminated (name : string) (rest : list ascii) :
  Forall (fun c => c <> zero) (list_ascii_of_string name) ->
  backtrace.c_str (list_ascii_of_string name ++ zero :: rest) = name.
Proof.
  induction name as [|c name IH]; intros Hnz.
  - reflexivity.
  - apply Forall_cons in Hnz as [Hc Hnz].
    cbn [list_ascii_of_string app backtrace.c_str].
    destruct (Ascii.eqb_spec c zero) as [->|_]; [contradiction|].
    now rewrite IH.
Qed.

(** X8.  [Symbol::raw] gives back a name that was stored with its
    terminating NUL, whatever follows the NUL in the buffer. *)
Theorem raw_reads_back_name (name : string) (rest : list ascii) (n : nat) :
  Forall (fun c => c <> zero) (list_ascii_of_string name) ->
  backtrace.raw
    {| backtrace.symbol_ :=
         {| backtrace.data := list_ascii_of_string name ++ zero :: rest;
            backtrace.size := n |} |}
  = name.
Proof.
  intros Hnz. unfold backtrace.raw. cbn [backtrace.symbol_ backtrace.data].
  now apply c_str_terminated.
Qed.

Lemma raw_reads_back_name_witness :
  backtrace.raw
    {| backtrace.symbol_ :=
         {| backtrace.data := list_ascii_of_string "foo" ++ zero :: ["x"%char];
            backtrace.size := 5 |} |}
  = "foo"%string.
Proof.
  apply raw_reads_back_name. repeat constructor; discriminate.
Defined.




(** ** The report *)

Lemma replay_print_frame (its : list backtrace.Iteration) : forall stderr,
  replay print_frame stderr its = stderr +:+ report_lines its.
Proof.
  induction its as [|it rest IH]; intros stderr.
  - simpl. now rewrite string_app_nil_r.
  - unfold replay in *. cbn [fold_left report_lines].
    rewrite print_frame_app. cbn [snd]. rewrite IH.
    apply string_app_assoc.
Qed.

Lemma frame_line_shape (frame : backtrace.Frame) (i a b : Z) :
  backtrace.ip frame = Some a -> backtrace.sp frame = Some b ->
  frame_line frame i =
  "#" +:+ fmt_d i +:+ tab +:+ tab +:+ symbol_text frame +:+ tab +:+
  " (ip: 0x" +:+ fmt_x a +:+ ", sp: 0x" +:+ fmt_x b +:+ ")" +:+ nl.
Proof.
  intros Hip Hsp.
  unfold frame_line, print_frame, print_none, fputs, symbol_text.
  rewrite Hip, Hsp. cbn [snd].
  destruct (backtrace.symbol frame); rewrite !string_app_assoc; reflexivity.
Qed.

(** X10.  [print_backtrace] adds to the error stream, after what is
    already there, the preamble, one line for each captured frame (all
    of them, since its visitor never asks to stop) and a line break.
    The line of the [k]-th frame carries the number
    [effective_depth - k], the frame's symbol text or the marker
    [<unknown>], and the two addresses in hexadecimal: the marker never
    stands in for an address. *)
Theorem print_backtrace_report (cfg : Config) (w : World) (stderr : string) :
  let its := iterations (backtrace.trace cfg w print_frame EmptyString) in
  print_backtrace cfg w stderr =
    stderr +:+ backtrace_preamble +:+ report_lines its +:+ nl
  /\ Z.of_nat (length its) = backtrace.effective_depth cfg w
  /\ forall k it, its !! k = Some it ->
       exists a b,
         drop 1 (ip_walk w) !! k = Some a
         /\ fst <$> drop 1 (sp_walk w) !! k = Some b
         /\ frame_line (backtrace.it_frame it) (backtrace.it_displayIndex it) =
            "#" +:+ fmt_d (backtrace.effective_depth cfg w - Z.of_nat k)
            +:+ tab +:+ tab +:+ symbol_text (backtrace.it_frame it) +:+ tab +:+
            " (ip: 0x" +:+ fmt_x a +:+ ", sp: 0x" +:+ fmt_x b +:+ ")" +:+ nl.
Proof.
  cbv zeta. split; [|split].
  - rewrite print_backtrace_app.
    pose proof (trace_final_state_replay cfg w string print_frame EmptyString)
      as Hfin.
    unfold print_backtrace, fputs.
    change (EmptyString +:+ backtrace_preamble) with backtrace_preamble.
    unfold backtrace.trace in *.
    rewrite (print_loop_app _ _ _ _ _ _ _ backtrace_preamble).
    destruct (backtrace.trace_loop _ _ _ _ _ _ _ _ EmptyString) as [out its] eqn:E.
    cbn [fst snd iterations final_state] in *.
    rewrite Hfin, replay_print_frame.
    change (EmptyString +:+ report_lines its) with (report_lines its).
    now rewrite !string_app_assoc.
  - apply trace_never_stopped_length. intros s frame i.
    now rewrite print_frame_app.
  - intros k it Hk.
    apply (trace_lookup cfg w print_frame EmptyString) in Hk as [Hlt Hshape].
    destruct Hshape as (_ & _ & _ & Hidx & Hip & Hsp & _).
    rewrite Nat2Z.id in Hip, Hsp.
    eexists _, _. split; [apply (ips_nth cfg); assumption|].
    split; [apply (sps_nth cfg); assumption|].
    rewrite <- Hidx. now apply frame_line_shape.
Qed.

(** ** The handler on other signals *)

(** X11.  Called with a signal outside its [switch], the handler writes
    no diagnostic, and still writes the report and aborts. *)
Theorem signal_handler_unlisted_signal
    (cfg : Config) (w : World) (signal : Z) (stderr : string) :
  signal ∉ supported_signals ->
  signal_handler cfg w signal stderr =
  (stderr +:+ (nl +:+ nl) +:+ print_backtrace cfg w EmptyString, Aborts).
Proof.
  intros Hs. unfold signal_handler, fputs.
  assert (signal_diagnostic signal = EmptyString) as ->.
  { unfold signal_diagnostic.
    destruct (Z.eqb_spec signal SIGSEGV) as [->|_];
      [exfalso; apply Hs; apply list_elem_of_here|].
    destruct (Z.eqb_spec signal SIGILL) as [->|_];
      [exfalso; apply Hs; apply list_elem_of_further, list_elem_of_here|].
    destruct (Z.eqb_spec signal SIGFPE) as [->|_]; [|reflexivity].
    exfalso; apply Hs.
    apply list_elem_of_further, list_elem_of_further, list_elem_of_here. }
  rewrite string_app_nil_r, print_backtrace_app.
  now rewrite !string_app_assoc.
Qed.

Lemma signal_handler_unlisted_signal_witness :
  signal_handler Demo.cfg Demo.world SIGTERM EmptyString =
  (nl +:+ nl +:+ print_backtrace Demo.cfg Demo.world EmptyString, Aborts).
Proof.
  apply (signal_handler_unlisted_signal Demo.cfg Demo.world SIGTERM EmptyString).
  unfold supported_signals. intros Hin.
  repeat (apply elem_of_cons in Hin as [Hin|Hin]; [discriminate Hin|]).
  inversion Hin.
Defined.

(** ** More on registration *)

(** X12.  Whatever its outcome, [handle_signal signal] leaves the
    disposition of every other signal as it was. *)
Theorem handle_signal_other_signals (os : OS) (signal other : Z) :
  other <> signal ->
  disposition (handle_signal os signal).2 other = disposition os other.
Proof.
  intros Hne.
  destruct (decide (signal ∈ supported_signals)) as [Hs|Hs].
  - rewrite handle_signal_supported by assumption.
    destruct (rejects os signal); cbn [snd]; [reflexivity|].
    unfold disposition. cbn [dispositions].
    now rewrite lookup_insert_ne by congruence.
  - now rewrite handle_signal_unsupported by assumption.
Qed.

Lemma handle_signal_other_signals_witness :
  disposition
    (handle_signal
       {| dispositions := {[ SIGFPE := other_handler 7 ]};
          rejects := fun _ => false |} SIGSEGV).2 SIGFPE
  = other_handler 7.
Proof.
  rewrite handle_signal_other_signals; [reflexivity|discriminate].
Defined.

(** X13.  Registering twice changes nothing the first registration did
    not: after a successful [handle_signal] a second one leaves the
    signal state exactly as the first left it. *)
Theorem handle_signal_twice_same_state (os : OS) (signal : Z) :
  signal ∈ supported_signals ->
  rejects os signal = false ->
  (handle_signal (handle_signal os signal).2 signal).2
  = (handle_signal os signal).2.
Proof.
  intros Hs Hacc.
  rewrite (handle_signal_supported os) by assumption. rewrite Hacc.
  cbn [snd]. rewrite handle_signal_supported by assumption.
  cbn [rejects]. rewrite Hacc. cbn [snd dispositions].
  now rewrite insert_insert_eq.
Qed.

Lemma handle_signal_twice_same_state_witness :
  (handle_signal (handle_signal Demo.accepting_os SIGILL).2 SIGILL).2
  = (handle_signal Demo.accepting_os SIGILL).2.
Proof.
  apply handle_signal_twice_same_state; [|reflexivity].
  apply list_elem_of_further, list_elem_of_here.
Defined.

(** X14.  The handler [handle_signal] returns is the one to restore:
    passing it back to [std::signal] for the same signal gives the
    internal handler as the previous one and puts every signal's
    disposition back to what it was before [handle_signal]. *)
Theorem handle_signal_then_restore (os : OS) (signal : Z) (prev : sighandler) :
  (handle_signal os signal).1 = Ok prev ->
  let restored := std.signal (handle_signal os signal).2 signal prev in
  restored.1 = previous signal_handler_ptr
  /\ forall s, disposition restored.2 s = disposition os s.
Proof.
  intros Hok. cbv zeta.
  destruct (decide (signal ∈ supported_signals)) as [Hs|Hs];
    [|rewrite handle_signal_unsupported in Hok by assumption; discriminate Hok].
  rewrite handle_signal_supported in * by assumption.
  destruct (rejects os signal) eqn:Hacc; [discriminate Hok|].
  cbn [fst snd] in *. injection Hok as <-.
  unfold std.signal. cbn [rejects]. rewrite Hacc. cbn [fst snd].
  unfold disposition at 1. cbn [dispositions].
  rewrite lookup_insert_eq. split; [reflexivity|].
  intros s. unfold disposition. cbn [dispositions].
  destruct (decide (s = signal)) as [->|Hne].
  - now rewrite lookup_insert_eq.
  - now rewrite !lookup_insert_ne by congruence.
Qed.

Lemma handle_signal_then_restore_witness :
  let os := {| dispositions := {[ SIGSEGV := other_handler 3 ]};
               rejects := fun _ => false |} in
  (handle_signal os SIGSEGV).1 = Ok (other_handler 3)
  /\ disposition
       (std.signal (handle_signal os SIGSEGV).2 SIGSEGV (other_handler 3)).2
       SIGSEGV = other_handler 3.
Proof.
  cbv zeta.
  assert ((handle_signal {| dispositions := {[ SIGSEGV := other_handler 3 ]};
                            rejects := fun _ => false |} SIGSEGV).1
          = Ok (other_handler 3)) as Hok by reflexivity.
  split; [exact Hok|].
  destruct (handle_signal_then_restore _ _ _ Hok) as [_ Hall].
  rewrite Hall. reflexivity.
Defined.

(** ** More on source locations *)

(** X15.  Arguments given to [SourceLocation::current] win over the
    builtins: whatever the compiler offers, the four accessors give back
    the file, the function, the line and the column that were passed
    (line and column within the range of 32 bits). *)
Theorem current_keeps_arguments
    (b : SourceLocation.Builtins) (site : SourceLocation.CallSite)
    (file func : string) (line column : Z) :
  0 <= line < 2 ^ 32 -> 0 <= column < 2 ^ 32 ->
  let loc := SourceLocation.current b site (Some file) (Some func)
               (Some line) (Some column) in
  SourceLocation.file_name loc = file
  /\ SourceLocation.function_name loc = func
  /\ SourceLocation.line loc = line
  /\ SourceLocation.column loc = column.
Proof.
  intros Hl Hc. cbv zeta.
  unfold SourceLocation.current, SourceLocation.file_name,
    SourceLocation.function_name, SourceLocation.line, SourceLocation.column,
    SourceLocation.to_u32.
  cbn. rewrite !Z.mod_small by assumption. repeat split.
Qed.

Lemma current_keeps_arguments_witness :
  let loc := SourceLocation.current SourceLocation.no_builtins Demo.site
               (Some "a.cc"%string) (Some "f"%string) (Some 7) (Some 2) in
  SourceLocation.file_name loc = "a.cc"%string
  /\ SourceLocation.function_name loc = "f"%string
  /\ SourceLocation.line loc = 7
  /\ SourceLocation.column loc = 2.
Proof.
  apply current_keeps_arguments; lia.
Defined.
